(** * Word count over a socket text stream

    A model of [notebooks/spark_basics/structured_streaming.ipynb].  The
    notebook's own code is a handful of engine calls and three lambdas:

<<
    sc = SparkContext('local')
    ssc = StreamingContext(sc, 5)
    lines = ssc.socketTextStream("localhost", 9999)
    words = lines.flatMap(lambda line: line.split(" "))
    pairs = words.map(lambda word: (word, 1))
    wordCounts = pairs.reduceByKey(lambda x, y: x + y)
    wordCounts.pprint()
    ssc.start()
    ssc.awaitTermination(20)
>>

    Strings are [string] (a line is decoded text; the separator is the
    one-character string holding U+0020, whose UTF-8 byte occurs in no
    multi-byte sequence, so splitting bytes and splitting characters
    agree).  Python integers are unbounded: [Z].  An RDD is the list of its
    records, a DStream the list of its micro-batches, each with its batch
    time.  The engine calls run in an error-and-state monad over the
    engine's state. *)

From Stdlib Require Import ZArith Ascii String.
From stdpp Require Import base decidable option list strings.

Local Open Scope Z_scope.

(** ** Python's [str.split] *)

Module PyStr.

(** Put a character in front of the first token. *)
Definition cons_head (a : ascii) (ws : list string) : list string :=
  match ws with
  | [] => [String a ""]
  | w :: ws' => String a w :: ws'
  end.

(** [split_from sep skip s]: the tokens of [s], scanning left to right;
    [skip] characters of a separator just matched are still to be passed
    over.  An occurrence of [sep] closes the current token, occurrences do
    not overlap, and the end of the string closes the last token. *)
Fixpoint split_from (sep : string) (skip : nat) (s : string) : list string :=
  match s with
  | EmptyString => [""]
  | String a s' =>
      match skip with
      | S k => split_from sep k s'
      | O =>
          if String.prefix sep s
          then "" :: split_from sep (Nat.pred (String.length sep)) s'
          else cons_head a (split_from sep O s')
      end
  end.

(** [s.split(sep)] for a non-empty [sep] (Python raises [ValueError] on the
    empty separator; the notebook's separator is a literal). *)
Definition split (sep s : string) : list string := split_from sep O s.

(** Split at every character that satisfies [p]. *)
Fixpoint split_where (p : ascii -> bool) (s : string) : list string :=
  match s with
  | EmptyString => [""]
  | String a s' =>
      if p a then "" :: split_where p s' else cons_head a (split_where p s')
  end.

(** The six ASCII whitespace characters: space, tab, line feed, vertical
    tab, form feed and carriage return. *)
Definition is_whitespace (a : ascii) : bool :=
  let n := nat_of_ascii a in
  (n =? 32)%nat || ((9 <=? n)%nat && (n <=? 13)%nat).

(** The whitespace-separated words of a line, following the words of the
    specification: split at any whitespace, with no empty tokens. *)
Definition whitespace_words (s : string) : list string :=
  filter (fun w => w <> "") (split_where is_whitespace s).

(** No character of [s] satisfies [p]. *)
Fixpoint free_of (p : ascii -> bool) (s : string) : bool :=
  match s with
  | EmptyString => true
  | String a s' => negb (p a) && free_of p s'
  end.

(** Every character of [s] satisfies [p]. *)
Fixpoint all_of (p : ascii -> bool) (s : string) : bool :=
  match s with
  | EmptyString => true
  | String a s' => p a && all_of p s'
  end.

Definition is_space (a : ascii) : bool := Ascii.eqb a " ".

(** A word: not empty and without whitespace. *)
Definition is_word (w : string) : Prop :=
  w <> "" /\ free_of is_whitespace w = true.

(** A gap between two words: not empty and whitespace only. *)
Definition is_gap (g : string) : Prop :=
  g <> "" /\ all_of is_whitespace g = true.

(** A line that [split " "] cuts into tokens of which one is empty: the
    empty line, a line with a space at its start or at its end, or with two
    spaces in a row. *)
Definition has_empty_gap (line : string) : Prop :=
  line = ""
  \/ (exists s, line = " " +:+ s)
  \/ (exists s, line = s +:+ " ")
  \/ (exists s1 s2, line = s1 +:+ "  " +:+ s2).

(** The line that starts with the word [w0] and goes on with the words of
    [rest], each after its gap. *)
Fixpoint assemble (w0 : string) (rest : list (string * string)) : string :=
  match rest with
  | [] => w0
  | (gap, w) :: rest' => w0 +:+ gap +:+ assemble w rest'
  end.

(** [sep.join(ws)]: the strings of [ws] with [sep] between neighbours. *)
Fixpoint join (sep : string) (ws : list string) : string :=
  match ws with
  | [] => ""
  | w :: ws' =>
      match ws' with
      | [] => w
      | _ :: _ => w +:+ sep +:+ join sep ws'
      end
  end.

(** The number of characters of [s] that satisfy [p]. *)
Fixpoint count_chars (p : ascii -> bool) (s : string) : nat :=
  match s with
  | EmptyString => O
  | String a s' => if p a then S (count_chars p s') else count_chars p s'
  end.

End PyStr.

(** ** Records of one micro-batch *)

Module RDD.

(** An RDD, as the list of its records. *)
Abbreviation t := list (only parsing).

Definition flatMap {A B : Type} (f : A -> list B) (r : t A) : t B :=
  r ≫= f.

Definition map {A B : Type} (f : A -> B) (r : t A) : t B := f <$> r.

(** Merge one value into the combiners built so far: the first value of a
    key opens its combiner, a later one is folded in with [f]. *)
Fixpoint mergeValue {K V : Type} `{EqDecision K}
    (f : V -> V -> V) (k : K) (v : V) (acc : list (K * V)) : list (K * V) :=
  match acc with
  | [] => [(k, v)]
  | (k', v') :: acc' =>
      if decide (k = k') then (k', f v' v) :: acc'
      else (k', v') :: mergeValue f k v acc'
  end.

(** [reduceByKey f]: one record per key, its value the values of that key
    combined with [f] in the order they arrive.  The list keeps the keys in
    the order of their first record; the engine fixes no order, and the
    statements about the result speak of its members. *)
Definition reduceByKey {K V : Type} `{EqDecision K}
    (f : V -> V -> V) (r : t (K * V)) : t (K * V) :=
  fold_left (fun acc kv => mergeValue f kv.1 kv.2 acc) r [].

(** The value recorded under key [k], if any. *)
Fixpoint lookup_key {K V : Type} `{EqDecision K} (k : K) (l : list (K * V))
    : option V :=
  match l with
  | [] => None
  | (k', v) :: l' => if decide (k = k') then Some v else lookup_key k l'
  end.

(** The values of the records with key [k], in order. *)
Definition values_of {K V : Type} `{EqDecision K} (k : K) (r : t (K * V))
    : list V :=
  (filter (fun kv => kv.1 = k) r).*2.

(** One more value for a key that has the combiner [o], or none yet. *)
Definition combine {V : Type} (f : V -> V -> V) (o : option V) (v : V) : V :=
  match o with
  | Some v' => f v' v
  | None => v
  end.

(** The combiner of a key after the values [vs], starting from [o]. *)
Definition reduce_values {V : Type} (f : V -> V -> V) (o : option V)
    (vs : list V) : option V :=
  fold_left (fun o v => Some (combine f o v)) vs o.

End RDD.

(** ** Streams of micro-batches *)

Module DStream.

(** Batch time, in seconds. *)
Definition Time : Type := Z.

(** A stream, as the list of its micro-batches with their times. *)
Abbreviation t A := (list (Time * RDD.t A)) (only parsing).

(** A transformation of a stream acts on every micro-batch on its own and
    keeps the batch's time. *)
Definition transform {A B : Type} (g : RDD.t A -> RDD.t B) (d : t A) : t B :=
  (fun b => (b.1, g b.2)) <$> d.

Definition flatMap {A B : Type} (f : A -> list B) : t A -> t B :=
  transform (RDD.flatMap f).

Definition map {A B : Type} (f : A -> B) : t A -> t B :=
  transform (RDD.map f).

Definition reduceByKey {K V : Type} `{EqDecision K} (f : V -> V -> V)
    : t (K * V) -> t (K * V) :=
  transform (RDD.reduceByKey f).

End DStream.

(** ** The notebook's transformations, on the lines of one micro-batch *)

Definition batch_words (batch : RDD.t string) : RDD.t string :=
  RDD.flatMap (fun line => PyStr.split " " line) batch.

Definition batch_pairs (batch : RDD.t string) : RDD.t (string * Z) :=
  RDD.map (fun word => (word, 1)) (batch_words batch).

Definition batch_wordCounts (batch : RDD.t string) : RDD.t (string * Z) :=
  RDD.reduceByKey (fun x y => x + y) (batch_pairs batch).

(** Number of occurrences of [w] in a list of tokens. *)
Definition occurrences (w : string) (tokens : list string) : Z :=
  Z.of_nat (length (filter (fun t => t = w) tokens)).

(** The sum of the counts of a list of pairs. *)
Definition total {K : Type} (r : list (K * Z)) : Z :=
  foldr (fun kv acc => kv.2 + acc) 0 r.

(** ** The engine, as the notebook sees it *)

Module Engine.

(** An exception, by its message. *)
Definition Exn : Type := string.

Inductive Scalar : Type :=
| SInt (z : Z)
| SStr (s : string).

(** The calls of the engine's API that the notebook uses, with their
    scalar arguments (handles and functions are left out). *)
Inductive Call : Type :=
| CSparkContext (master : string)
| CStreamingContext (batchDuration : Z)
| CsocketTextStream (hostname : string) (port : Z)
| CflatMap
| Cmap
| CreduceByKey
| Cpprint
| Cstart
| CawaitTermination (timeout : Z).

(** The scalar arguments of a call, each under its parameter's name. *)
Definition scalar_args (c : Call) : list (string * Scalar) :=
  match c with
  | CSparkContext master => [("master", SStr master)]
  | CStreamingContext batchDuration => [("batchDuration", SInt batchDuration)]
  | CsocketTextStream hostname port =>
      [("hostname", SStr hostname); ("port", SInt port)]
  | CawaitTermination timeout => [("timeout", SInt timeout)]
  | CflatMap | Cmap | CreduceByKey | Cpprint | Cstart => []
  end.

(** Transformations make a stream from a stream; [pprint] is an output
    operation. *)
Definition is_transformation (c : Call) : bool :=
  match c with
  | CflatMap | Cmap | CreduceByKey => true
  | _ => false
  end.

Definition is_socketTextStream (c : Call) : bool :=
  match c with CsocketTextStream _ _ => true | _ => false end.

Definition is_start (c : Call) : bool :=
  match c with Cstart => true | _ => false end.

(** The calls after the first one that satisfies [p]. *)
Fixpoint after (p : Call -> bool) (cs : list Call) : list Call :=
  match cs with
  | [] => []
  | c :: cs' => if p c then cs' else after p cs'
  end.

(** The calls before the first one that satisfies [p]. *)
Fixpoint before (p : Call -> bool) (cs : list Call) : list Call :=
  match cs with
  | [] => []
  | c :: cs' => if p c then [] else c :: before p cs'
  end.

(** The calls between the creation of the socket stream and the start of
    the computation. *)
Definition between_stream_and_start (cs : list Call) : list Call :=
  before is_start (after is_socketTextStream cs).

(** A line of console output; [R] is the type of the records shown. *)
Inductive Line (R : Type) : Type :=
| Rule
| TimeLine (time : DStream.Time)
| Record (r : R)
| Dots
| Blank.
Arguments Rule {R}.
Arguments TimeLine {R} time.
Arguments Record {R} r.
Arguments Dots {R}.
Arguments Blank {R}.

Definition is_digit (a : ascii) : bool :=
  let n := nat_of_ascii a in
  (48 <=? n)%nat && (n <=? 57)%nat.

(** What is left of [s] after its beginning [p]. *)
Fixpoint strip_prefix (p s : string) : option string :=
  match p with
  | EmptyString => Some s
  | String a p' =>
      match s with
      | EmptyString => None
      | String b s' => if Ascii.eqb a b then strip_prefix p' s' else None
      end
  end.

(** The number written by [s], when [s] is decimal digits, at least one,
    and a closing bracket; [acc] is the value of the digits read, [seen]
    tells that there was one. *)
Fixpoint bracket_number (acc : nat) (seen : bool) (s : string) : option nat :=
  match s with
  | EmptyString => None
  | String a s' =>
      if is_digit a
      then bracket_number (10 * acc + (nat_of_ascii a - 48))%nat true s'
      else if Ascii.eqb a "]" && seen
           then match s' with EmptyString => Some acc | String _ _ => None end
           else None
  end.

(** The threads of a local master: one for 'local', N for 'local[N]'. *)
Definition master_threads (master : string) : option nat :=
  if decide (master = "local") then Some 1%nat
  else match strip_prefix "local[" master with
       | Some rest => bracket_number O false rest
       | None => None
       end.

(** What the notebook can observe of the engine and its surroundings:
    - [calls]: the API calls received so far, oldest first;
    - [socket]: the micro-batches into which the engine cuts the lines
      that arrive at the socket while the computation runs;
    - [outputs]: the streams registered for output, each with the number
      of records to show for a micro-batch;
    - [console]: the lines printed so far;
    - [faults]: the calls that the engine answers with an exception;
    - [receivers]: the receivers of the input streams created so far;
    - [cluster]: the task slots behind a master that is not 'local' or
      'local[N]';
    - [arrange]: the order in which the engine keeps the records that come
      out of a shuffle. *)
Record World (R : Type) : Type := mkWorld {
  calls : list Call;
  socket : DStream.t string;
  outputs : list (nat * DStream.t R);
  console : list (Line R);
  faults : Call -> option Exn;
  receivers : nat;
  cluster : string -> nat;
  arrange : forall A : Type, list A -> list A
}.
Arguments mkWorld {R}.
Arguments calls {R}.
Arguments socket {R}.
Arguments outputs {R}.
Arguments console {R}.
Arguments faults {R}.
Arguments receivers {R}.
Arguments cluster {R}.
Arguments arrange {R} _ {A}.

(** The tasks that can run at a time under [master]. *)
Definition task_slots {R : Type} (w : World R) (master : string) : nat :=
  match master_threads master with
  | Some n => n
  | None => cluster w master
  end.

Inductive Result (A : Type) : Type :=
| Return (a : A)
| Raise (e : Exn).
Arguments Return {A} a.
Arguments Raise {A} e.

(** A computation may change the world and ends with a value or with an
    uncaught exception. *)
Definition M (R A : Type) : Type := World R -> Result A * World R.

Definition ret {R A : Type} (a : A) : M R A := fun w => (Return a, w).

(** Sequencing: an exception of the first computation ends the whole. *)
Definition bind {R A B : Type} (m : M R A) (k : A -> M R B) : M R B :=
  fun w =>
    match m w with
    | (Return a, w') => k a w'
    | (Raise e, w') => (Raise e, w')
    end.

Definition log {R : Type} (c : Call) (w : World R) : World R :=
  mkWorld (calls w ++ [c]) (socket w) (outputs w) (console w) (faults w)
    (receivers w) (cluster w) (@arrange R w).

(** An API call: the engine receives it, then either raises or does its
    work. *)
Definition call {R A : Type} (c : Call) (work : World R -> A * World R)
    : M R A :=
  fun w =>
    let w1 := log c w in
    match faults w1 c with
    | Some e => (Raise e, w1)
    | None => let (a, w2) := work w1 in (Return a, w2)
    end.

(** A context, with the master it was made for: the master decides how
    many tasks the context runs at a time (see [task_slots] and [start]). *)
Record SparkContext_t : Type := { master : string }.

Record StreamingContext_t : Type := {
  sparkContext : SparkContext_t;
  batchDuration : Z
}.

(** [SparkContext(master)] *)
Definition SparkContext {R : Type} (master : string) : M R SparkContext_t :=
  call (CSparkContext master) (fun w => ({| master := master |}, w)).

Definition StreamingContext {R : Type} (sc : SparkContext_t)
    (batchDuration : Z) : M R StreamingContext_t :=
  call (CStreamingContext batchDuration)
    (fun w => ({| sparkContext := sc; batchDuration := batchDuration |}, w)).

Definition socketTextStream {R : Type} (ssc : StreamingContext_t)
    (hostname : string) (port : Z) : M R (DStream.t string) :=
  call (CsocketTextStream hostname port)
    (fun w => (socket w,
               mkWorld (calls w) (socket w) (outputs w) (console w) (faults w)
                 (S (receivers w)) (cluster w) (@arrange R w))).

Definition flatMap {R A B : Type} (d : DStream.t A) (f : A -> list B)
    : M R (DStream.t B) :=
  call CflatMap (fun w => (DStream.flatMap f d, w)).

Definition map {R A B : Type} (d : DStream.t A) (f : A -> B)
    : M R (DStream.t B) :=
  call Cmap (fun w => (DStream.map f d, w)).

Definition reduceByKey {R K V : Type} `{EqDecision K}
    (d : DStream.t (K * V)) (f : V -> V -> V) : M R (DStream.t (K * V)) :=
  call CreduceByKey
    (fun w => (DStream.transform
                 (fun r => arrange w (RDD.reduceByKey f r)) d, w)).

(** What [pprint(num)] prints for one micro-batch: the time between two
    rules, the first [num] records, dots when there are more, and an empty
    line. *)
Definition takeAndPrint {R : Type} (num : nat) (b : DStream.Time * RDD.t R)
    : list (Line R) :=
  let taken := take (S num) b.2 in
  [Rule; TimeLine b.1; Rule]
    ++ (Record <$> take num taken)
    ++ (if decide (num < length taken)%nat then [Dots] else [])
    ++ [Blank].

(** [d.pprint(num)]: register [d] for output. *)
Definition pprint_num {R : Type} (d : DStream.t R) (num : nat) : M R unit :=
  call Cpprint
    (fun w => (tt, mkWorld (calls w) (socket w) (outputs w ++ [(num, d)])
                     (console w) (faults w)
                     (receivers w) (cluster w) (@arrange R w))).

(** [d.pprint()]: [num] defaults to ten. *)
Definition pprint {R : Type} (d : DStream.t R) : M R unit := pprint_num d 10.

(** The output of the run: batch after batch, every registered stream
    prints its micro-batch of that time. *)
Definition run_batches {R : Type} (n : nat)
    (outs : list (nat * DStream.t R)) : list (Line R) :=
  i ← seq 0 n;
  out ← outs;
  match out.2 !! i with
  | Some b => takeAndPrint out.1 b
  | None => []
  end.

(** [ssc.start()]: every receiver takes a task slot of the context for
    the whole run.  With a slot left the batch jobs run, over the
    micro-batches of the socket; with none left no batch job ever runs and
    nothing is printed. *)
Definition start {R : Type} (ssc : StreamingContext_t) : M R unit :=
  call Cstart
    (fun w => (tt, mkWorld (calls w) (socket w) (outputs w)
                     (console w
                        ++ if (receivers w
                               <? task_slots w (master (sparkContext ssc)))%nat
                           then run_batches (length (socket w)) (outputs w)
                           else [])
                     (faults w) (receivers w) (cluster w) (@arrange R w))).

(** [ssc.awaitTermination(timeout)]: nothing stops the context, so the
    wait ends by the timeout; the call answers [None]. *)
Definition awaitTermination {R : Type} (ssc : StreamingContext_t)
    (timeout : Z) : M R unit :=
  call (CawaitTermination timeout) (fun w => (tt, w)).

(** A world in which nothing has happened yet and no call fails; the
    engine keeps records in the order of [RDD.reduceByKey]. *)
Definition fresh {R : Type} (input : DStream.t string) : World R :=
  mkWorld [] input [] [] (fun _ => None) O (fun _ => O) (fun _ l => l).

(** The same world, with the engine failing as [f] says. *)
Definition faulty {R : Type} (input : DStream.t string)
    (f : Call -> option Exn) : World R :=
  mkWorld [] input [] [] f O (fun _ => O) (fun _ l => l).

(** The records shown on the console. *)
Fixpoint records {R : Type} (ls : list (Line R)) : list R :=
  match ls with
  | [] => []
  | Record r :: ls' => r :: records ls'
  | _ :: ls' => records ls'
  end.

(** The output for one micro-batch in the words of the specification: the
    time header, then every record of the batch. *)
Definition whole_batch {R : Type} (b : DStream.Time * RDD.t R)
    : list (Line R) :=
  [Rule; TimeLine b.1; Rule] ++ (Record <$> b.2) ++ [Blank].

(** Of the calls [cs] made in this order, those that reach an engine that
    fails as [f] says, when the first exception ends the run. *)
Fixpoint served (f : Call -> option Exn) (cs : list Call) : list Call :=
  match cs with
  | [] => []
  | c :: cs' =>
      match f c with
      | Some _ => [c]
      | None => c :: served f cs'
      end
  end.

(** The exception of the first failing call among [cs], if any. *)
Fixpoint first_fault (f : Call -> option Exn) (cs : list Call)
    : option Exn :=
  match cs with
  | [] => None
  | c :: cs' =>
      match f c with
      | Some e => Some e
      | None => first_fault f cs'
      end
  end.

End Engine.

Notation "'let*' x ':=' m 'in' k" := (Engine.bind m (fun x => k))
  (at level 10, x name, m at level 100, k at level 200,
   format "'[v' 'let*'  x  ':='  m  'in' '/' k ']'").

(** ** The notebook *)

Definition notebook : Engine.M (string * Z) unit :=
  let* sc := Engine.SparkContext "local" in
  let* ssc := Engine.StreamingContext sc 5 in
  let* lines := Engine.socketTextStream ssc "localhost" 9999 in
  let* words := Engine.flatMap lines (fun line => PyStr.split " " line) in
  let* pairs := Engine.map words (fun word => (word, 1)) in
  let* wordCounts := Engine.reduceByKey pairs (fun x y => x + y) in
  let* _ := Engine.pprint wordCounts in
  let* _ := Engine.start ssc in
  Engine.awaitTermination ssc 20.

(** The same cells with the master of the first one left open.  The
    comment of the second cell speaks of two working threads, and the output
    stored with the last cell is that of a run in which the batch jobs had a
    thread. *)
Definition notebook_on (master : string) : Engine.M (string * Z) unit :=
  let* sc := Engine.SparkContext master in
  let* ssc := Engine.StreamingContext sc 5 in
  let* lines := Engine.socketTextStream ssc "localhost" 9999 in
  let* words := Engine.flatMap lines (fun line => PyStr.split " " line) in
  let* pairs := Engine.map words (fun word => (word, 1)) in
  let* wordCounts := Engine.reduceByKey pairs (fun x y => x + y) in
  let* _ := Engine.pprint wordCounts in
  let* _ := Engine.start ssc in
  Engine.awaitTermination ssc 20.

(** The calls of the notebook, in the order of its cells. *)
Definition notebook_calls : list Engine.Call :=
  [ Engine.CSparkContext "local";
    Engine.CStreamingContext 5;
    Engine.CsocketTextStream "localhost" 9999;
    Engine.CflatMap;
    Engine.Cmap;
    Engine.CreduceByKey;
    Engine.Cpprint;
    Engine.Cstart;
    Engine.CawaitTermination 20 ].

Example split_apache_spark : PyStr.split " " "apache spark" = ["apache"; "spark"].
Proof. reflexivity. Qed.
Example split_gap : PyStr.split " " "a  b" = ["a"; ""; "b"].
Proof. reflexivity. Qed.
Example split_edges : PyStr.split " " " a " = [""; "a"; ""].
Proof. reflexivity. Qed.
Example split_empty : PyStr.split " " "" = [""].
Proof. reflexivity. Qed.
Example split_long_sep : PyStr.split "ab" "xabyababz" = ["x"; "y"; ""; "z"].
Proof. reflexivity. Qed.
Example split_overlap : PyStr.split "aa" "aaa" = [""; "a"].
Proof. reflexivity. Qed.
Example ws_words : PyStr.whitespace_words "  a  b c " = ["a"; "b"; "c"].
Proof. vm_compute. reflexivity. Qed.
Example wc_example :
  batch_wordCounts ["a b a"; "b c a"] = [("a", 3); ("b", 2); ("c", 1)].
Proof. vm_compute. reflexivity. Qed.
Example master_threads_examples :
  Engine.master_threads "local" = Some 1%nat
  /\ Engine.master_threads "local[2]" = Some 2%nat
  /\ Engine.master_threads "local[16]" = Some 16%nat
  /\ Engine.master_threads "local[]" = None
  /\ Engine.master_threads "local[*]" = None
  /\ Engine.master_threads "spark://host:7077" = None.
Proof. repeat split; reflexivity. Qed.

Example notebook_on_local : notebook_on "local" = notebook.
Proof. reflexivity. Qed.

Example stored_output_two_threads :
  Engine.console
    (notebook_on "local[2]"
       (Engine.fresh [(35, []); (40, ["apache spark"]); (45, []);
                      (50, ["apache hadoop"])])).2
  = [ Engine.Rule; Engine.TimeLine 35; Engine.Rule; Engine.Blank;
      Engine.Rule; Engine.TimeLine 40; Engine.Rule;
      Engine.Record ("apache", 1); Engine.Record ("spark", 1); Engine.Blank;
      Engine.Rule; Engine.TimeLine 45; Engine.Rule; Engine.Blank;
      Engine.Rule; Engine.TimeLine 50; Engine.Rule;
      Engine.Record ("apache", 1); Engine.Record ("hadoop", 1); Engine.Blank ].
Proof. vm_compute. reflexivity. Qed.

Example printed_nothing_one_thread :
  Engine.console
    (notebook
       (Engine.fresh [(35, []); (40, ["apache spark"]); (45, []);
                      (50, ["apache hadoop"])])).2
  = [].
Proof. vm_compute. reflexivity. Qed.

(** ** Facts about [split] *)

Section Split.

Import PyStr.

Lemma append_String a (s1 s2 : string) :
  String a s1 +:+ s2 = String a (s1 +:+ s2).
Proof. reflexivity. Qed.

Lemma cons_head_app a (l1 l2 : list string) :
  l1 <> [] -> cons_head a (l1 ++ l2) = cons_head a l1 ++ l2.
Proof. destruct l1; [congruence | reflexivity]. Qed.

Lemma split_where_not_nil p s : split_where p s <> [].
Proof.
  destruct s as [|a s]; simpl; [congruence|].
  destruct (p a); [congruence|].
  destruct (split_where p s); simpl; congruence.
Qed.

(** With a separator of one character, [split] cuts at every occurrence of
    that character. *)
Lemma split_one_char c s :
  split (String c "") s = split_where (fun a => Ascii.eqb a c) s.
Proof.
  unfold split. induction s as [|a s IH]; [reflexivity|].
  simpl. destruct (ascii_dec c a) as [->|Hne].
  - rewrite Ascii.eqb_refl.
    replace (String.prefix "" s) with true by (destruct s; reflexivity).
    now rewrite IH.
  - destruct (Ascii.eqb_spec a c) as [->|_]; [congruence|]. now rewrite IH.
Qed.

Lemma split_space s : split " " s = split_where is_space s.
Proof. apply split_one_char. Qed.

(** The tokens of [s1], a separator, [s2] are the tokens of [s1] followed by
    the tokens of [s2]. *)
Lemma split_where_app p s1 c s2 :
  p c = true ->
  split_where p (s1 +:+ String c s2) = split_where p s1 ++ split_where p s2.
Proof.
  intros Hc. induction s1 as [|a s1 IH]; simpl.
  - now rewrite Hc.
  - destruct (p a); rewrite IH; [reflexivity|].
    apply cons_head_app, split_where_not_nil.
Qed.

Lemma split_where_free p w : free_of p w = true -> split_where p w = [w].
Proof.
  induction w as [|a w IH]; simpl; [reflexivity|].
  intros [Ha Hw]%andb_prop. apply negb_true_iff in Ha. rewrite Ha.
  now rewrite IH.
Qed.

Lemma split_where_word_sep p w c s :
  free_of p w = true -> p c = true ->
  split_where p (w +:+ String c s) = w :: split_where p s.
Proof.
  intros Hw Hc. rewrite split_where_app by assumption.
  now rewrite split_where_free.
Qed.

Lemma is_whitespace_space : is_whitespace " " = true.
Proof. reflexivity. Qed.

Lemma is_space_whitespace a : is_space a = true -> is_whitespace a = true.
Proof.
  unfold is_space. intros ->%Ascii.eqb_eq. reflexivity.
Qed.

Lemma free_of_weaken (p q : ascii -> bool) s :
  (forall a, q a = true -> p a = true) ->
  free_of p s = true -> free_of q s = true.
Proof.
  intros Hpq. induction s as [|a s IH]; simpl; [reflexivity|].
  intros [Ha Hs]%andb_prop. rewrite IH by assumption.
  apply negb_true_iff in Ha. destruct (q a) eqn:Hq; [|reflexivity].
  apply Hpq in Hq. congruence.
Qed.

Lemma word_free_of_space w :
  free_of is_whitespace w = true -> free_of is_space w = true.
Proof. apply free_of_weaken, is_space_whitespace. Qed.

(** A run of separators yields one empty token for each of them. *)
Lemma split_where_gap p g s :
  all_of p g = true ->
  split_where p (g +:+ s) = replicate (String.length g) "" ++ split_where p s.
Proof.
  induction g as [|a g IH]; simpl; [reflexivity|].
  intros [Ha Hg]%andb_prop. rewrite Ha. now rewrite IH.
Qed.

Lemma filter_nonempty_replicate n (l : list string) :
  filter (fun w => w <> "") (replicate n "" ++ l)
  = filter (fun w => w <> "") l.
Proof.
  induction n as [|n IH]; simpl; [reflexivity|].
  rewrite filter_cons_False by (intros H; now apply H). exact IH.
Qed.

(** The words of the specification: an assembled line has the words it was
    assembled from, whatever whitespace fills the gaps. *)
Lemma whitespace_words_assemble rest : forall w0,
  is_word w0 ->
  Forall (fun gw => is_gap gw.1 /\ is_word gw.2) rest ->
  whitespace_words (assemble w0 rest) = w0 :: rest.*2.
Proof.
  unfold whitespace_words.
  induction rest as [|[g w] rest IH]; intros w0 [Hne Hfree] Hrest; simpl.
  - rewrite split_where_free by assumption.
    now rewrite filter_cons_True, filter_nil.
  - apply Forall_cons in Hrest as [[[Hg Hall] Hw] Hrest]. simpl in *.
    destruct g as [|c g]; [congruence|]. simpl in Hall.
    apply andb_prop in Hall as [Hc Hall]. rewrite append_String.
    rewrite split_where_word_sep by assumption.
    rewrite filter_cons_True by assumption. f_equal.
    rewrite split_where_gap by assumption.
    rewrite filter_nonempty_replicate. now apply IH.
Qed.

(** When every gap is a single space, [split " "] finds the same words. *)
Lemma split_assemble_single_spaces rest : forall w0,
  free_of is_space w0 = true ->
  Forall (fun gw => gw.1 = " " /\ free_of is_space gw.2 = true) rest ->
  split " " (assemble w0 rest) = w0 :: rest.*2.
Proof.
  induction rest as [|[g w] rest IH]; intros w0 Hfree Hrest; simpl.
  - rewrite split_space. now apply split_where_free.
  - apply Forall_cons in Hrest as [[Hg Hw] Hrest]. simpl in *. subst g.
    rewrite split_space, append_String.
    rewrite split_where_word_sep by (assumption || reflexivity).
    f_equal. rewrite <- split_space. now apply IH.
Qed.

Lemma split_where_prefix p w s :
  free_of p w = true ->
  split_where p (w +:+ s)
  = (w +:+ hd "" (split_where p s)) :: tl (split_where p s).
Proof.
  induction w as [|a w IH]; intros Hfree.
  - change (split_where p s
            = hd "" (split_where p s) :: tl (split_where p s)).
    pose proof (split_where_not_nil p s) as Hne.
    destruct (split_where p s); [congruence | reflexivity].
  - simpl in Hfree. apply andb_prop in Hfree as [Ha Hw].
    apply negb_true_iff in Ha.
    rewrite !append_String. simpl split_where.
    rewrite Ha, IH by assumption. reflexivity.
Qed.

Lemma append_self (w s : string) : w +:+ s = w -> s = "".
Proof.
  induction w as [|a w IH]; [trivial|].
  rewrite append_String. intros [= Heq]. now apply IH.
Qed.

Lemma hd_cons_head a (l : list string) :
  exists x, hd "" (cons_head a l) = String a x.
Proof. destruct l as [|x l]; simpl; eauto. Qed.

(** If [split " "] finds the words of an assembled line, every gap of the
    line is a single space. *)
Lemma single_spaces_needed rest : forall w0,
  is_word w0 ->
  Forall (fun gw => is_gap gw.1 /\ is_word gw.2) rest ->
  split_where is_space (assemble w0 rest) = w0 :: rest.*2 ->
  Forall (fun gw => gw.1 = " ") rest.
Proof.
  induction rest as [|[g w] rest IH]; intros w0 [Hne Hfree] Hrest Hsplit;
    [constructor|].
  apply Forall_cons in Hrest as [[[Hg Hall] Hw] Hrest]. simpl in Hg, Hall, Hw.
  destruct g as [|c g]; [congruence|].
  simpl in Hall. apply andb_prop in Hall as [Hc Hall].
  simpl assemble in Hsplit. rewrite append_String in Hsplit.
  rewrite split_where_prefix in Hsplit by now apply word_free_of_space.
  rewrite fmap_cons in Hsplit. injection Hsplit as Hhd Htl.
  apply append_self in Hhd. simpl split_where in Hhd, Htl.
  destruct (is_space c) eqn:Hsp.
  - apply Ascii.eqb_eq in Hsp as ->. simpl in Htl.
    destruct g as [|c' g].
    + constructor; [reflexivity|]. now apply (IH w).
    + exfalso. simpl in Hall. apply andb_prop in Hall as [Hc' _].
      rewrite append_String in Htl. simpl split_where in Htl.
      destruct Hw as [Hwne Hwfree]. destruct (is_space c').
      * injection Htl as Hw' _. congruence.
      * destruct (hd_cons_head c'
          (split_where is_space (g +:+ assemble w rest))) as [x Hx].
        destruct (cons_head c' (split_where is_space (g +:+ assemble w rest)))
          as [|w' l]; [discriminate|].
        simpl in Hx. injection Htl as -> _. subst w.
        simpl in Hwfree. rewrite Hc' in Hwfree. discriminate.
  - exfalso.
    destruct (hd_cons_head c
      (split_where is_space (g +:+ assemble w rest))) as [x Hx].
    congruence.
Qed.

End Split.

(** ** Facts about [reduceByKey] *)

Section ReduceByKey.

Import RDD.

Context {K V : Type} `{EqDecision K}.
Variable f : V -> V -> V.

Lemma lookup_mergeValue_eq k v (acc : list (K * V)) :
  lookup_key k (mergeValue f k v acc) = Some (combine f (lookup_key k acc) v).
Proof.
  induction acc as [|[k' v'] acc IH]; simpl.
  - now rewrite decide_True.
  - destruct (decide (k = k')) as [->|Hne]; simpl.
    + now rewrite decide_True.
    + now rewrite decide_False.
Qed.

Lemma lookup_mergeValue_ne k k0 v (acc : list (K * V)) :
  k <> k0 -> lookup_key k0 (mergeValue f k v acc) = lookup_key k0 acc.
Proof.
  intros Hne. induction acc as [|[k' v'] acc IH]; simpl.
  - rewrite decide_False; congruence.
  - destruct (decide (k = k')) as [->|Hne']; simpl.
    + rewrite !decide_False; congruence.
    + now rewrite IH.
Qed.

Lemma keys_mergeValue k0 k v (acc : list (K * V)) :
  k0 ∈ (mergeValue f k v acc).*1 <-> k0 = k \/ k0 ∈ acc.*1.
Proof.
  induction acc as [|[k' v'] acc IH]; simpl.
  - rewrite list_elem_of_singleton, elem_of_nil. tauto.
  - destruct (decide (k = k')) as [->|Hne]; csimpl.
    + rewrite !elem_of_cons. tauto.
    + rewrite !elem_of_cons, IH. tauto.
Qed.

Lemma NoDup_keys_mergeValue k v (acc : list (K * V)) :
  NoDup acc.*1 -> NoDup (mergeValue f k v acc).*1.
Proof.
  induction acc as [|[k' v'] acc IH]; simpl.
  - intros _. apply NoDup_singleton.
  - intros [Hnotin Hnd]%NoDup_cons.
    destruct (decide (k = k')) as [->|Hne]; csimpl.
    + now apply NoDup_cons.
    + apply NoDup_cons. split; [|now apply IH].
      rewrite keys_mergeValue. intros [->|Hin]; [congruence | contradiction].
Qed.

Lemma lookup_fold_mergeValue k (r acc : list (K * V)) :
  lookup_key k (fold_left (fun acc kv => mergeValue f kv.1 kv.2 acc) r acc)
  = reduce_values f (lookup_key k acc) (values_of k r).
Proof.
  revert acc. unfold reduce_values, values_of.
  induction r as [|[k' v'] r IH]; intros acc; simpl; [reflexivity|].
  rewrite IH. destruct (decide (k' = k)) as [->|Hne].
  - rewrite filter_cons_True by reflexivity. csimpl.
    now rewrite lookup_mergeValue_eq.
  - rewrite filter_cons_False by assumption.
    now rewrite lookup_mergeValue_ne.
Qed.

Lemma NoDup_keys_fold_mergeValue (r acc : list (K * V)) :
  NoDup acc.*1 ->
  NoDup (fold_left (fun acc kv => mergeValue f kv.1 kv.2 acc) r acc).*1.
Proof.
  revert acc. induction r as [|[k v] r IH]; intros acc Hnd; simpl; [assumption|].
  apply IH. now apply NoDup_keys_mergeValue.
Qed.

Lemma lookup_key_None k (l : list (K * V)) :
  lookup_key k l = None <-> k ∉ l.*1.
Proof.
  induction l as [|[k' v'] l IH]; csimpl.
  - split; [intros _; apply not_elem_of_nil | reflexivity].
  - rewrite not_elem_of_cons. destruct (decide (k = k')); [|tauto].
    split; [discriminate | tauto].
Qed.

Lemma elem_of_lookup_key k v (l : list (K * V)) :
  NoDup l.*1 -> (k, v) ∈ l <-> lookup_key k l = Some v.
Proof.
  induction l as [|[k' v'] l IH]; csimpl.
  - intros _. split; [intros []%elem_of_nil | discriminate].
  - intros [Hnotin Hnd]%NoDup_cons. rewrite elem_of_cons, IH by assumption.
    destruct (decide (k = k')) as [->|Hne].
    + split.
      * intros [[= ->]|Hl]; [reflexivity|].
        apply lookup_key_None in Hnotin. congruence.
      * intros [= ->]. now left.
    + split; [intros [[= -> _]|Hl]; [congruence | assumption] | now right].
Qed.

(** One record for each key. *)
Lemma NoDup_keys_reduceByKey (r : list (K * V)) :
  NoDup (reduceByKey f r).*1.
Proof. apply NoDup_keys_fold_mergeValue, NoDup_nil_2. Qed.

(** The record of a key holds the values of that key combined in order. *)
Lemma elem_of_reduceByKey k v (r : list (K * V)) :
  (k, v) ∈ reduceByKey f r <-> reduce_values f None (values_of k r) = Some v.
Proof.
  rewrite elem_of_lookup_key by apply NoDup_keys_reduceByKey.
  unfold reduceByKey. now rewrite lookup_fold_mergeValue.
Qed.

Hypothesis f_assoc : forall x y z, f (f x y) z = f x (f y z).
Hypothesis f_comm : forall x y, f x y = f y x.

Lemma reduce_values_Permutation (vs vs' : list V) :
  vs ≡ₚ vs' -> forall o, reduce_values f o vs = reduce_values f o vs'.
Proof.
  unfold reduce_values.
  induction 1 as [|x vs vs' _ IH|x y vs|vs1 vs2 vs3 _ IH1 _ IH2]; intros o; simpl.
  - reflexivity.
  - apply IH.
  - f_equal. f_equal. destruct o as [a|]; simpl.
    + now rewrite !f_assoc, (f_comm y x).
    + apply f_comm.
  - now rewrite IH1.
Qed.

(** With an associative and commutative [f], the records that
    [reduceByKey f] makes do not depend on the order of its input. *)
Lemma reduceByKey_Permutation (r r' : list (K * V)) :
  r ≡ₚ r' -> reduceByKey f r ≡ₚ reduceByKey f r'.
Proof.
  intros Hperm.
  apply NoDup_Permutation.
  - eapply NoDup_fmap_1, NoDup_keys_reduceByKey.
  - eapply NoDup_fmap_1, NoDup_keys_reduceByKey.
  - intros [k v]. rewrite !elem_of_reduceByKey.
    rewrite (reduce_values_Permutation (values_of k r) (values_of k r')); [reflexivity|].
    unfold values_of. now rewrite Hperm.
Qed.

End ReduceByKey.

(** ** The word counts of one micro-batch *)

Section WordCounts.

Import PyStr RDD.

Lemma values_of_ones w (tokens : list string) :
  values_of w ((fun word => (word, 1)) <$> tokens)
  = replicate (length (filter (fun t => t = w) tokens)) 1.
Proof.
  unfold values_of. induction tokens as [|t tokens IH]; [reflexivity|].
  rewrite fmap_cons. destruct (decide (t = w)) as [->|Hne].
  - rewrite !filter_cons_True by reflexivity.
    rewrite fmap_cons, IH. reflexivity.
  - rewrite !filter_cons_False by assumption. exact IH.
Qed.

Lemma reduce_values_ones n : forall o,
  reduce_values (fun x y => x + y) o (replicate n 1)
  = match n with
    | O => o
    | S _ => Some (default 0 o + Z.of_nat n)
    end.
Proof.
  unfold reduce_values.
  induction n as [|n IH]; intros o; [reflexivity|].
  simpl replicate. simpl fold_left. rewrite IH.
  destruct n as [|n]; destruct o as [a|]; simpl combine; simpl default;
    f_equal; lia.
Qed.

Lemma occurrences_pos w (tokens : list string) :
  w ∈ tokens <-> 1 <= occurrences w tokens.
Proof.
  unfold occurrences. split.
  - intros Hin.
    assert (Hf : w ∈ filter (fun t => t = w) tokens)
      by (apply list_elem_of_filter; split; [reflexivity | assumption]).
    destruct (filter (fun t => t = w) tokens); [now apply elem_of_nil in Hf|].
    simpl length. lia.
  - intros Hlen.
    destruct (filter (fun t => t = w) tokens) as [|t l] eqn:Hf;
      [simpl in Hlen; lia|].
    assert (Ht : t ∈ filter (fun t => t = w) tokens) by (rewrite Hf; left).
    apply list_elem_of_filter in Ht as [-> Ht]. exact Ht.
Qed.

(** The pairs of a batch: every word of the batch with the number of times
    it occurs, and nothing else. *)
Lemma elem_of_batch_wordCounts batch w n :
  (w, n) ∈ batch_wordCounts batch
  <-> w ∈ batch_words batch /\ n = occurrences w (batch_words batch).
Proof.
  unfold batch_wordCounts, batch_pairs, RDD.map.
  rewrite elem_of_reduceByKey, values_of_ones, reduce_values_ones.
  rewrite occurrences_pos. unfold occurrences.
  destruct (length (filter (fun t => t = w) (batch_words batch))) as [|m].
  - split; [discriminate | simpl; lia].
  - simpl default. split.
    + intros [= <-]. lia.
    + intros [_ ->]. f_equal.
Qed.

Lemma NoDup_keys_batch_wordCounts batch : NoDup (batch_wordCounts batch).*1.
Proof. apply NoDup_keys_reduceByKey. Qed.

Lemma batch_wordCounts_Permutation b1 b2 :
  batch_words b1 ≡ₚ batch_words b2 ->
  batch_wordCounts b1 ≡ₚ batch_wordCounts b2.
Proof.
  intros Hperm. unfold batch_wordCounts, batch_pairs, RDD.map.
  apply reduceByKey_Permutation.
  - intros; lia.
  - intros; lia.
  - now rewrite Hperm.
Qed.

Lemma batch_words_Permutation b1 b2 :
  b1 ≡ₚ b2 -> batch_words b1 ≡ₚ batch_words b2.
Proof. intros Hperm. unfold batch_words, flatMap. now rewrite Hperm. Qed.

Lemma split_has_empty_gap line :
  has_empty_gap line -> "" ∈ split " " line.
Proof.
  rewrite split_space.
  intros [->|[[s ->]|[[s ->]|(s1 & s2 & ->)]]].
  - left.
  - left.
  - rewrite split_where_app by reflexivity. apply elem_of_app. right. left.
  - change ("  " +:+ s2) with (String " " (String " " s2)).
    rewrite split_where_app by reflexivity. apply elem_of_app. right. left.
Qed.

Lemma elem_of_batch_words batch line w :
  line ∈ batch -> w ∈ split " " line -> w ∈ batch_words batch.
Proof.
  intros Hline Hw. unfold batch_words, flatMap.
  apply list_elem_of_bind. eauto.
Qed.

End WordCounts.

(** ** Runs of the notebook *)

Section Runs.

Import Engine.

Lemma transform_transform {A B C : Type} (g : list A -> list B)
    (h : list B -> list C) (d : DStream.t A) :
  DStream.transform h (DStream.transform g d)
  = DStream.transform (fun r => h (g r)) d.
Proof.
  unfold DStream.transform. rewrite <- list_fmap_compose.
  apply list_fmap_ext. intros _ [time r] _. reflexivity.
Qed.

(** The stream that the notebook hands to [pprint], when the engine keeps
    the records of a shuffle as [g] says. *)
Lemma notebook_stream (g : list (string * Z) -> list (string * Z))
    (input : DStream.t string) :
  DStream.transform (fun r => g (RDD.reduceByKey (fun x y => x + y) r))
    (DStream.map (fun word => (word, 1))
       (DStream.flatMap (fun line => PyStr.split " " line) input))
  = DStream.transform (fun r => g (batch_wordCounts r)) input.
Proof.
  unfold DStream.map, DStream.flatMap.
  now rewrite !transform_transform.
Qed.

(** A single registered stream prints its micro-batches one after the
    other. *)
Lemma run_batches_single {R : Type} (num : nat) (d : DStream.t R) :
  run_batches (length d) [(num, d)] = d ≫= takeAndPrint num.
Proof.
  unfold run_batches.
  induction d as [|b d IH]; [reflexivity|].
  simpl length. rewrite <- cons_seq, <- fmap_S_seq.
  rewrite !bind_cons, list_fmap_bind, <- IH. simpl.
  rewrite app_nil_r. reflexivity.
Qed.

Lemma task_slots_local {R : Type} (w : World R) :
  task_slots w "local" = 1%nat.
Proof. reflexivity. Qed.

(** A run in an engine that answers every call. *)
Lemma notebook_ok (w : World (string * Z)) :
  (forall c, faults w c = None) ->
  notebook w
  = (Return tt,
     mkWorld (calls w ++ notebook_calls) (socket w)
       (outputs w
          ++ [(10%nat,
               DStream.transform (fun r => arrange w (batch_wordCounts r))
                 (socket w))])
       (console w) (faults w) (S (receivers w)) (cluster w)
       (@arrange _ w)).
Proof.
  intros Hok.
  unfold notebook, bind, SparkContext, StreamingContext, socketTextStream,
    flatMap, map, reduceByKey, pprint, pprint_num, start, awaitTermination,
    call, log.
  repeat (cbn [calls socket outputs console faults receivers cluster arrange
               master sparkContext];
          rewrite Hok).
  cbn [calls socket outputs console faults receivers cluster arrange
       master sparkContext].
  rewrite notebook_stream, task_slots_local.
  change (S (receivers w) <? 1)%nat with false.
  rewrite app_nil_r, <- !app_assoc. reflexivity.
Qed.

(** A run from a fresh engine that never fails. *)
Lemma notebook_fresh (input : DStream.t string) :
  notebook (fresh input)
  = (Return tt,
     mkWorld notebook_calls input
       [(10%nat, DStream.transform batch_wordCounts input)]
       [] (fun _ => None) 1%nat (fun _ => O) (fun _ l => l)).
Proof.
  rewrite notebook_ok by reflexivity. reflexivity.
Qed.

End Runs.

(** ** The claims about the counts *)

(** C1. For every batch of lines, the pipeline (flatMap with
    [split " "], map to [(word, 1)], reduceByKey with addition) yields
    exactly one pair for each word among the tokens of the batch, holding
    the number of occurrences of that word among the tokens, and no pair
    under any other key. *)
Theorem wordCounts_counts_every_word (batch : RDD.t string) :
  NoDup (batch_wordCounts batch).*1
  /\ (forall w, w ∈ (batch_wordCounts batch).*1 <-> w ∈ batch_words batch)
  /\ (forall w n,
        (w, n) ∈ batch_wordCounts batch
        <-> w ∈ batch_words batch /\ n = occurrences w (batch_words batch)).
Proof.
  split; [apply NoDup_keys_batch_wordCounts|].
  split; [|apply elem_of_batch_wordCounts].
  intros w. rewrite list_elem_of_fmap. split.
  - intros ([w' n] & -> & Hin). now apply elem_of_batch_wordCounts in Hin.
  - intros Hin. exists (w, occurrences w (batch_words batch)).
    split; [reflexivity|]. now apply elem_of_batch_wordCounts.
Qed.

(** C2. With the line "apache spark" as the whole input of one batch and the
    line "apache hadoop" as the whole input of a later one, the pipeline
    yields for the first batch exactly the pairs ('apache', 1) and
    ('spark', 1), and for the later one exactly ('apache', 1) and
    ('hadoop', 1). *)
Theorem apache_spark_then_apache_hadoop :
  batch_wordCounts ["apache spark"] = [("apache", 1); ("spark", 1)]
  /\ batch_wordCounts ["apache hadoop"] = [("apache", 1); ("hadoop", 1)]
  /\ (forall p, p ∈ batch_wordCounts ["apache spark"]
                <-> p = ("apache", 1) \/ p = ("spark", 1))
  /\ (forall p, p ∈ batch_wordCounts ["apache hadoop"]
                <-> p = ("apache", 1) \/ p = ("hadoop", 1)).
Proof.
  assert (H1 : batch_wordCounts ["apache spark"]
               = [("apache", 1); ("spark", 1)]) by reflexivity.
  assert (H2 : batch_wordCounts ["apache hadoop"]
               = [("apache", 1); ("hadoop", 1)]) by reflexivity.
  split; [exact H1|]. split; [exact H2|].
  split; intros p; [rewrite H1 | rewrite H2];
    rewrite !elem_of_cons, elem_of_nil; tauto.
Qed.

(** C9. Two batches whose lines are permutations of each other, and more
    generally two batches with the same multiset of tokens, yield the same
    pairs: the results are permutations of each other and have the same
    members. *)
Theorem wordCounts_order_independent (b1 b2 : RDD.t string) :
  b1 ≡ₚ b2 \/ batch_words b1 ≡ₚ batch_words b2 ->
  batch_wordCounts b1 ≡ₚ batch_wordCounts b2
  /\ (forall p, p ∈ batch_wordCounts b1 <-> p ∈ batch_wordCounts b2).
Proof.
  intros Hperm.
  assert (Hwc : batch_wordCounts b1 ≡ₚ batch_wordCounts b2).
  { apply batch_wordCounts_Permutation.
    destruct Hperm as [Hlines|Htokens]; [|assumption].
    now apply batch_words_Permutation. }
  split; [assumption|]. intros p. now rewrite Hwc.
Qed.

Lemma wordCounts_order_independent_witness :
  (batch_wordCounts ["a b"; "c a"] ≡ₚ batch_wordCounts ["c a"; "a b"]
   /\ (forall p, p ∈ batch_wordCounts ["a b"; "c a"]
                 <-> p ∈ batch_wordCounts ["c a"; "a b"]))
  /\ (batch_wordCounts ["a b"; "c"] ≡ₚ batch_wordCounts ["c b a"]
      /\ (forall p, p ∈ batch_wordCounts ["a b"; "c"]
                    <-> p ∈ batch_wordCounts ["c b a"])).
Proof.
  split.
  - apply (wordCounts_order_independent ["a b"; "c a"] ["c a"; "a b"]).
    left. apply perm_swap.
  - apply (wordCounts_order_independent ["a b"; "c"] ["c b a"]).
    right. vm_compute.
    apply (perm_trans (l' := ["a"; "c"; "b"])).
    + apply perm_skip, perm_swap.
    + apply (perm_trans (l' := ["c"; "a"; "b"])).
      * apply perm_swap.
      * apply perm_skip, perm_swap.
Defined.

(** C10. A line that is empty, starts or ends with a space, or has two
    spaces in a row (such as "a  b") makes the pipeline count the empty
    string as a word: its batch has a pair ('', n) with n >= 1.  In every
    batch result each count is a positive integer. *)
Theorem empty_word_counted (batch : RDD.t string) :
  (forall line,
      line ∈ batch -> PyStr.has_empty_gap line ->
      exists n, ("", n) ∈ batch_wordCounts batch /\ 1 <= n)
  /\ (forall w n, (w, n) ∈ batch_wordCounts batch -> 1 <= n).
Proof.
  split.
  - intros line Hline Hgap.
    exists (occurrences "" (batch_words batch)).
    assert (Hin : "" ∈ batch_words batch).
    { eapply elem_of_batch_words; [exact Hline|].
      now apply split_has_empty_gap. }
    split.
    + now apply elem_of_batch_wordCounts.
    + now apply occurrences_pos.
  - intros w n [Hin ->]%elem_of_batch_wordCounts. now apply occurrences_pos.
Qed.

Lemma empty_word_counted_witness :
  (exists n, ("", n) ∈ batch_wordCounts ["a  b"] /\ 1 <= n)
  /\ 1 <= 2.
Proof.
  split.
  - apply (proj1 (empty_word_counted ["a  b"]) "a  b").
    + left.
    + right. right. right. exists "a", "b". reflexivity.
  - apply (proj2 (empty_word_counted ["a b"; "b"]) "b" 2).
    vm_compute. right. left.
Defined.

(** ** Facts about the engine's calls and output *)

Section EngineFacts.

Import Engine.

Lemma takeAndPrint_ten {R : Type} (b : DStream.Time * list R) :
  takeAndPrint 10 b
  = if decide (length b.2 <= 10)%nat then whole_batch b
    else [Rule; TimeLine b.1; Rule]
           ++ (Record <$> take 10 b.2) ++ [Dots; Blank].
Proof.
  unfold takeAndPrint, whole_batch.
  rewrite take_take, length_take.
  replace (10 `min` 11)%nat with 10%nat by reflexivity.
  destruct (decide (length b.2 <= 10)%nat) as [Hle|Hgt].
  - rewrite take_ge by assumption.
    rewrite decide_False by lia. reflexivity.
  - rewrite decide_True by lia. reflexivity.
Qed.

Lemma served_app f pre c post e :
  Forall (fun c' => f c' = None) pre -> f c = Some e ->
  served f (pre ++ c :: post) = pre ++ [c]
  /\ first_fault f (pre ++ c :: post) = Some e.
Proof.
  intros Hpre Hc. induction Hpre as [|c' pre Hc' _ [IH1 IH2]]; simpl.
  - now rewrite Hc.
  - now rewrite Hc', IH1, IH2.
Qed.

Lemma served_prefix f cs : exists n, served f cs = take n cs.
Proof.
  induction cs as [|c cs [n IH]]; simpl.
  - now exists O.
  - destruct (f c).
    + now exists 1%nat.
    + exists (S n). now rewrite IH.
Qed.

(** A run of the notebook in any state of the engine: the calls go out in
    the order of the cells until one of them raises, and that exception is
    the outcome of the run. *)
Lemma notebook_run (w : World (string * Z)) :
  calls (notebook w).2 = calls w ++ served (faults w) notebook_calls
  /\ (notebook w).1
     = match first_fault (faults w) notebook_calls with
       | Some e => Raise e
       | None => Return tt
       end.
Proof.
  unfold notebook, bind, SparkContext, StreamingContext, socketTextStream,
    flatMap, map, reduceByKey, pprint, pprint_num, start, awaitTermination,
    call, log.
  simpl.
  repeat match goal with
         | |- context [faults w ?c] => destruct (faults w c); simpl
         end;
    rewrite <- ?app_assoc; split; reflexivity.
Qed.

End EngineFacts.

(** ** The claims about the calls *)

(** C4, as the specification has it, fails: between the creation of the
    socket stream and the start of the computation the notebook does not
    apply two transformations. *)
Lemma not_two_transformations :
  length
    (filter (fun c => Engine.is_transformation c = true)
       (Engine.between_stream_and_start
          (Engine.calls (notebook (Engine.fresh [])).2)))
  <> 2%nat.
Proof. vm_compute. discriminate. Qed.

(** C4, amended.  Whatever arrives at the socket, the notebook calls, in
    this order: SparkContext, StreamingContext, socketTextStream, the three
    transformations flatMap, map and reduceByKey, the output operation
    pprint, start, awaitTermination.  Between the creation of the socket
    stream and the start there are exactly three transformations. *)
Theorem three_transformations (input : DStream.t string) :
  Engine.calls (notebook (Engine.fresh input)).2
  = [ Engine.CSparkContext "local"; Engine.CStreamingContext 5;
      Engine.CsocketTextStream "localhost" 9999;
      Engine.CflatMap; Engine.Cmap; Engine.CreduceByKey;
      Engine.Cpprint; Engine.Cstart; Engine.CawaitTermination 20 ]
  /\ Engine.between_stream_and_start
       (Engine.calls (notebook (Engine.fresh input)).2)
     = [Engine.CflatMap; Engine.Cmap; Engine.CreduceByKey; Engine.Cpprint]
  /\ filter (fun c => Engine.is_transformation c = true)
       (Engine.between_stream_and_start
          (Engine.calls (notebook (Engine.fresh input)).2))
     = [Engine.CflatMap; Engine.Cmap; Engine.CreduceByKey].
Proof. rewrite notebook_fresh. repeat split; reflexivity. Qed.

(** C5, as the specification has it, fails: the notebook passes a scalar
    that is neither the batch interval nor the timeout, the port among
    them. *)
Lemma port_is_passed :
  ("port", Engine.SInt 9999)
    ∈ (Engine.calls (notebook (Engine.fresh [])).2 ≫= Engine.scalar_args)
  /\ ~ Forall (fun a => a.1 = "batchDuration" \/ a.1 = "timeout")
         (Engine.calls (notebook (Engine.fresh [])).2 ≫= Engine.scalar_args).
Proof.
  assert (Hin : ("port", Engine.SInt 9999)
    ∈ (Engine.calls (notebook (Engine.fresh [])).2 ≫= Engine.scalar_args)).
  { vm_compute. do 3 right. left. }
  split; [exact Hin|].
  intros Hall. rewrite Forall_forall in Hall.
  destruct (Hall _ Hin) as [H|H]; discriminate H.
Qed.

(** C5, amended.  The scalars that the notebook passes to the engine are
    five: the master 'local', the batch interval 5, the host name
    "localhost", the port 9999 and the timeout 20 of awaitTermination. *)
Theorem five_scalar_arguments (input : DStream.t string) :
  Engine.calls (notebook (Engine.fresh input)).2 ≫= Engine.scalar_args
  = [ ("master", Engine.SStr "local");
      ("batchDuration", Engine.SInt 5);
      ("hostname", Engine.SStr "localhost");
      ("port", Engine.SInt 9999);
      ("timeout", Engine.SInt 20) ].
Proof. rewrite notebook_fresh. reflexivity. Qed.

(** C6. The host name "localhost", the port 9999, the batch interval 5 and
    the timeout 20 are literals of the notebook: in every run, whatever the
    socket delivers and whichever calls the engine fails, the calls made are
    an initial part of the same list of calls, in which these four
    arguments have these values. *)
Theorem literal_arguments (input : DStream.t string)
    (f : Engine.Call -> option Engine.Exn) :
  (exists n,
      Engine.calls (notebook (Engine.faulty input f)).2
      = take n notebook_calls)
  /\ Engine.calls (notebook (Engine.fresh input)).2 = notebook_calls
  /\ filter (fun a => a.1 ∈ ["hostname"; "port"; "batchDuration"; "timeout"])
       (notebook_calls ≫= Engine.scalar_args)
     = [ ("batchDuration", Engine.SInt 5);
         ("hostname", Engine.SStr "localhost");
         ("port", Engine.SInt 9999);
         ("timeout", Engine.SInt 20) ].
Proof.
  split; [|split].
  - destruct (notebook_run (Engine.faulty input f)) as [-> _].
    apply served_prefix.
  - now rewrite notebook_fresh.
  - vm_compute. reflexivity.
Qed.

(** C8. The notebook catches nothing: when a call of the notebook is the
    first that the engine answers with an exception, the run ends with that
    very exception, and no call is made after the failing one. *)
Theorem exception_propagates (w : Engine.World (string * Z))
    (pre : list Engine.Call) (c : Engine.Call) (post : list Engine.Call)
    (e : Engine.Exn) :
  notebook_calls = pre ++ c :: post ->
  Forall (fun c' => Engine.faults w c' = None) pre ->
  Engine.faults w c = Some e ->
  (notebook w).1 = Engine.Raise e
  /\ Engine.calls (notebook w).2 = Engine.calls w ++ pre ++ [c].
Proof.
  intros Hcalls Hpre Hc.
  destruct (notebook_run w) as [-> ->]. rewrite Hcalls.
  destruct (served_app (Engine.faults w) pre c post e Hpre Hc) as [-> ->].
  split; reflexivity.
Qed.

Lemma exception_propagates_witness :
  (notebook
     (Engine.faulty []
        (fun c => if Engine.is_start c then Some "Connection refused"
                  else None))).1
  = Engine.Raise "Connection refused"
  /\ Engine.calls
       (notebook
          (Engine.faulty []
             (fun c => if Engine.is_start c then Some "Connection refused"
                       else None))).2
     = [] ++ [ Engine.CSparkContext "local"; Engine.CStreamingContext 5;
               Engine.CsocketTextStream "localhost" 9999;
               Engine.CflatMap; Engine.Cmap; Engine.CreduceByKey;
               Engine.Cpprint ] ++ [Engine.Cstart].
Proof.
  apply (exception_propagates
           (Engine.faulty []
              (fun c => if Engine.is_start c then Some "Connection refused"
                        else None))
           [ Engine.CSparkContext "local"; Engine.CStreamingContext 5;
             Engine.CsocketTextStream "localhost" 9999;
             Engine.CflatMap; Engine.Cmap; Engine.CreduceByKey;
             Engine.Cpprint ]
           Engine.Cstart [Engine.CawaitTermination 20]
           "Connection refused").
  - reflexivity.
  - repeat constructor.
  - reflexivity.
Defined.

(** ** The claim about whitespace *)

(** C3, as the specification has it, fails: with two spaces, or with a tab,
    between two words the tokens of [split " "] are not the
    whitespace-separated words of the line. *)
Lemma split_is_not_whitespace_split :
  ~ (forall w0 rest,
        PyStr.is_word w0 ->
        Forall (fun gw => PyStr.is_gap gw.1 /\ PyStr.is_word gw.2) rest ->
        PyStr.split " " (PyStr.assemble w0 rest)
        = PyStr.whitespace_words (PyStr.assemble w0 rest))
  /\ PyStr.split " " "a  b" = ["a"; ""; "b"]
  /\ PyStr.whitespace_words "a  b" = ["a"; "b"]
  /\ PyStr.split " " (PyStr.assemble "a" [(String "009" "", "b")])
     = ["a" +:+ String "009" "b"]
  /\ PyStr.whitespace_words (PyStr.assemble "a" [(String "009" "", "b")])
     = ["a"; "b"].
Proof.
  split; [|repeat split; vm_compute; reflexivity].
  intros Hclaim. specialize (Hclaim "a" [("  ", "b")]).
  assert (Hab : forall s, s = "a" \/ s = "b" -> PyStr.is_word s)
    by (intros s [->| ->]; split; (discriminate || reflexivity)).
  discriminate Hclaim.
  - apply Hab. now left.
  - constructor; [|constructor]. split.
    + split; [discriminate | reflexivity].
    + apply Hab. now right.
Qed.

(** C3, amended.  For a line of words separated by whitespace, the tokens
    that the pipeline extracts and counts are the whitespace-separated words
    of the line exactly when every gap between two words is a single space;
    they are then the words the line was written with. *)
Theorem split_finds_words_of_single_spaced_lines
    (w0 : string) (rest : list (string * string)) :
  PyStr.is_word w0 ->
  Forall (fun gw => PyStr.is_gap gw.1 /\ PyStr.is_word gw.2) rest ->
  PyStr.whitespace_words (PyStr.assemble w0 rest) = w0 :: rest.*2
  /\ (PyStr.split " " (PyStr.assemble w0 rest)
      = PyStr.whitespace_words (PyStr.assemble w0 rest)
      <-> Forall (fun gw => gw.1 = " ") rest).
Proof.
  intros Hw0 Hrest.
  rewrite whitespace_words_assemble by assumption.
  split; [reflexivity|]. split.
  - rewrite split_space. now apply single_spaces_needed.
  - intros Hsingle. apply split_assemble_single_spaces.
    + apply word_free_of_space, Hw0.
    + rewrite Forall_forall in *. intros gw Hin. split.
      * now apply Hsingle.
      * apply word_free_of_space. now apply (Hrest gw Hin).
Qed.

Lemma split_finds_words_of_single_spaced_lines_witness :
  PyStr.whitespace_words "apache spark" = ["apache"; "spark"]
  /\ (PyStr.split " " "apache spark" = PyStr.whitespace_words "apache spark"
      <-> Forall (fun gw : string * string => gw.1 = " ") [(" ", "spark")]).
Proof.
  apply (split_finds_words_of_single_spaced_lines "apache" [(" ", "spark")]).
  - split; [discriminate | reflexivity].
  - constructor; [|constructor]. split.
    + split; [discriminate | reflexivity].
    + split; [discriminate | reflexivity].
Defined.

(** ** The claim about the printed output *)

(** C7, as the specification has it, fails for a batch with eleven
    different words: eleven pairs are computed; the output operation that
    the notebook registers shows ten of them when the batch job runs, and
    the run of the notebook shows none. *)
Lemma more_than_ten_pairs_not_all_printed :
  length (batch_wordCounts ["a b c d e f g h i j k"]) = 11%nat
  /\ length
       (Engine.records
          (Engine.run_batches 1
             (Engine.outputs
                (notebook
                   (Engine.fresh [(0, ["a b c d e f g h i j k"])])).2)))
     = 10%nat
  /\ ~ (Engine.records
          (Engine.run_batches 1
             (Engine.outputs
                (notebook
                   (Engine.fresh [(0, ["a b c d e f g h i j k"])])).2))
        ≡ₚ batch_wordCounts ["a b c d e f g h i j k"])
  /\ ~ (Engine.records
          (Engine.console
             (notebook (Engine.fresh [(0, ["a b c d e f g h i j k"])])).2)
        ≡ₚ batch_wordCounts ["a b c d e f g h i j k"]).
Proof.
  rewrite notebook_fresh.
  split; [reflexivity|]. split; [reflexivity|].
  split; intros Hperm; apply Permutation_length in Hperm; discriminate Hperm.
Qed.

(** C7, amended.  With [wordCounts.pprint()] the notebook registers one
    output, of at most ten records for a micro-batch, over the stream that
    holds for every micro-batch of the socket, under its time, the pairs
    computed by the pipeline for that batch, in the order the engine keeps
    them.  For each micro-batch this output shows the time header of the
    batch and then its pairs: all of them when they are at most ten,
    otherwise the first ten followed by a line of dots. *)
Theorem first_ten_pairs_shown (w : Engine.World (string * Z)) :
  (forall c, Engine.faults w c = None) ->
  (forall l : list (string * Z), Engine.arrange w l ≡ₚ l) ->
  exists results : DStream.t (string * Z),
    Engine.outputs (notebook w).2 = Engine.outputs w ++ [(10%nat, results)]
    /\ Forall2 (fun b r => r.1 = b.1 /\ r.2 ≡ₚ batch_wordCounts b.2)
         (Engine.socket w) results
    /\ Engine.run_batches (length (Engine.socket w)) [(10%nat, results)]
       = results ≫= (fun r =>
           if decide (length r.2 <= 10)%nat
           then Engine.whole_batch r
           else [Engine.Rule; Engine.TimeLine r.1; Engine.Rule]
                  ++ (Engine.Record <$> take 10 r.2)
                  ++ [Engine.Dots; Engine.Blank]).
Proof.
  intros Hok Harrange.
  exists (DStream.transform
            (fun r => Engine.arrange w (batch_wordCounts r))
            (Engine.socket w)).
  rewrite notebook_ok by assumption. cbn [snd Engine.outputs].
  split; [reflexivity|]. split.
  - unfold DStream.transform. apply Forall2_fmap_r, Forall_Forall2_diag.
    apply Forall_forall. intros b _. split; [reflexivity | apply Harrange].
  - rewrite <- (length_fmap
                  (fun b => (b.1, Engine.arrange w (batch_wordCounts b.2)))
                  (Engine.socket w)).
    change (DStream.transform
              (fun r => Engine.arrange w (batch_wordCounts r))
              (Engine.socket w))
      with ((fun b : DStream.Time * list string =>
               (b.1, Engine.arrange w (batch_wordCounts b.2)))
              <$> Engine.socket w).
    rewrite run_batches_single.
    apply list_bind_ext; [|reflexivity].
    intros r. apply takeAndPrint_ten.
Qed.

Lemma first_ten_pairs_shown_witness :
  exists results : DStream.t (string * Z),
    Engine.outputs
      (notebook
         (Engine.fresh [(0, ["a b c d e f g h i j k"]); (5, ["a a"])])).2
    = Engine.outputs
        (Engine.fresh [(0, ["a b c d e f g h i j k"]); (5, ["a a"])])
        ++ [(10%nat, results)]
    /\ Forall2 (fun b r => r.1 = b.1 /\ r.2 ≡ₚ batch_wordCounts b.2)
         (Engine.socket
            (Engine.fresh (R := string * Z)
               [(0, ["a b c d e f g h i j k"]); (5, ["a a"])]))
         results
    /\ Engine.run_batches
         (length
            (Engine.socket
               (Engine.fresh (R := string * Z)
                  [(0, ["a b c d e f g h i j k"]); (5, ["a a"])])))
         [(10%nat, results)]
       = results ≫= (fun r =>
           if decide (length r.2 <= 10)%nat
           then Engine.whole_batch r
           else [Engine.Rule; Engine.TimeLine r.1; Engine.Rule]
                  ++ (Engine.Record <$> take 10 r.2)
                  ++ [Engine.Dots; Engine.Blank]).
Proof.
  apply (first_ten_pairs_shown
           (Engine.fresh [(0, ["a b c d e f g h i j k"]); (5, ["a a"])])).
  - intros c. reflexivity.
  - intros l. reflexivity.
Defined.

(** ** Further properties of the split of a line *)

Section SplitRoundTrip.

Import PyStr.

Lemma join_cons_head sep a (l : list string) :
  l <> [] -> join sep (cons_head a l) = String a (join sep l).
Proof.
  destruct l as [|w [|w' l]]; [congruence | reflexivity | reflexivity].
Qed.

Lemma join_split_where (c : ascii) s :
  join (String c "") (split_where (fun a => Ascii.eqb a c) s) = s.
Proof.
  induction s as [|a s IH]; [reflexivity|].
  simpl split_where. destruct (Ascii.eqb_spec a c) as [->|Hne].
  - pose proof (split_where_not_nil (fun a => Ascii.eqb a c) s) as Hnil.
    destruct (split_where (fun a => Ascii.eqb a c) s) as [|w l] eqn:Hs;
      [congruence|].
    change (join (String c "") ("" :: w :: l))
      with (String c (join (String c "") (w :: l))).
    now rewrite IH.
  - rewrite join_cons_head by apply split_where_not_nil. now rewrite IH.
Qed.

Lemma length_split_where p s :
  length (split_where p s) = S (count_chars p s).
Proof.
  induction s as [|a s IH]; [reflexivity|].
  simpl. destruct (p a); simpl.
  - now rewrite IH.
  - rewrite <- IH. now destruct (split_where p s).
Qed.

Lemma split_where_tokens_free p s :
  Forall (fun w => free_of p w = true) (split_where p s).
Proof.
  induction s as [|a s IH]; simpl.
  - now repeat constructor.
  - destruct (p a) eqn:Ha.
    + now constructor.
    + destruct (split_where p s) as [|w l]; simpl.
      * repeat constructor. simpl. now rewrite Ha.
      * apply Forall_cons in IH as [Hw Hl]. constructor; [|assumption].
        simpl. now rewrite Ha, Hw.
Qed.

Lemma split_where_join p (c : ascii) (ws : list string) :
  p c = true ->
  ws <> [] ->
  Forall (fun w => free_of p w = true) ws ->
  split_where p (join (String c "") ws) = ws.
Proof.
  intros Hc Hne Hfree. induction Hfree as [|w ws Hw Hws IH]; [congruence|].
  destruct ws as [|w' ws].
  - now apply split_where_free.
  - change (join (String c "") (w :: w' :: ws))
      with (w +:+ String c (join (String c "") (w' :: ws))).
    rewrite split_where_word_sep by assumption.
    f_equal. now apply IH.
Qed.

End SplitRoundTrip.

(** X1. Nothing of a line is lost by the split: the tokens of a line, joined
    again with single spaces, are the line. *)
Theorem join_split (line : string) :
  PyStr.join " " (PyStr.split " " line) = line.
Proof. rewrite split_space. apply join_split_where. Qed.

(** X2. Words without a space, at least one of them, joined with single
    spaces and split again are the same words. *)
Theorem split_join (ws : list string) :
  ws <> [] ->
  Forall (fun w => PyStr.free_of PyStr.is_space w = true) ws ->
  PyStr.split " " (PyStr.join " " ws) = ws.
Proof.
  intros Hne Hfree. rewrite split_space.
  now apply split_where_join.
Qed.

Lemma split_join_witness :
  PyStr.split " " (PyStr.join " " ["apache"; ""; "spark"])
  = ["apache"; ""; "spark"].
Proof.
  apply (split_join ["apache"; ""; "spark"]).
  - discriminate.
  - repeat constructor.
Defined.

(** X3. A line has one token more than it has spaces, so never none, and no
    token holds a space. *)
Theorem split_token_count (line : string) :
  length (PyStr.split " " line)
  = S (PyStr.count_chars PyStr.is_space line)
  /\ Forall (fun w => PyStr.free_of PyStr.is_space w = true)
       (PyStr.split " " line).
Proof.
  rewrite split_space. split.
  - apply length_split_where.
  - apply split_where_tokens_free.
Qed.

(** ** Further properties of the counts of a batch *)

Section Counts.

Import PyStr RDD.

Lemma total_mergeValue {K : Type} `{EqDecision K} (k : K) (v : Z)
    (acc : list (K * Z)) :
  total (mergeValue (fun x y => x + y) k v acc) = total acc + v.
Proof.
  unfold total. induction acc as [|[k' v'] acc IH]; simpl; [lia|].
  destruct (decide (k = k')); simpl; lia.
Qed.

Lemma total_fold_mergeValue {K : Type} `{EqDecision K} (r acc : list (K * Z)) :
  total (fold_left (fun acc kv => mergeValue (fun x y => x + y) kv.1 kv.2 acc)
           r acc)
  = total acc + total r.
Proof.
  revert acc. induction r as [|[k v] r IH]; intros acc; simpl.
  - unfold total. simpl. lia.
  - rewrite IH, total_mergeValue. unfold total. simpl. lia.
Qed.

Lemma total_ones (tokens : list string) :
  total ((fun word => (word, 1)) <$> tokens) = Z.of_nat (length tokens).
Proof.
  unfold total. induction tokens as [|t tokens IH]; [reflexivity|].
  rewrite fmap_cons. simpl foldr. simpl length. rewrite IH. lia.
Qed.

Lemma batch_words_app b1 b2 :
  batch_words (b1 ++ b2) = batch_words b1 ++ batch_words b2.
Proof. unfold batch_words, flatMap. apply bind_app. Qed.

Lemma occurrences_app w (l1 l2 : list string) :
  occurrences w (l1 ++ l2) = occurrences w l1 + occurrences w l2.
Proof.
  unfold occurrences. rewrite filter_app, length_app. lia.
Qed.

Lemma occurrences_absent w (tokens : list string) :
  w ∉ tokens -> occurrences w tokens = 0.
Proof.
  intros Hnotin. rewrite occurrences_pos in Hnotin.
  unfold occurrences in *. lia.
Qed.

Lemma batch_words_not_nil line batch : batch_words (line :: batch) <> [].
Proof.
  unfold batch_words, flatMap. rewrite bind_cons, split_space.
  pose proof (split_where_not_nil is_space line) as Hne.
  destruct (split_where is_space line); [congruence | discriminate].
Qed.

End Counts.

(** X4. No token is lost or counted twice: the counts of a batch add up to
    the number of its tokens. *)
Theorem counts_add_up_to_tokens (batch : RDD.t string) :
  total (batch_wordCounts batch) = Z.of_nat (length (batch_words batch)).
Proof.
  unfold batch_wordCounts, batch_pairs, RDD.reduceByKey, RDD.map.
  rewrite total_fold_mergeValue, total_ones. reflexivity.
Qed.

(** X5. A batch has as many pairs as it has different tokens. *)
Theorem one_pair_per_different_token (batch : RDD.t string) :
  length (batch_wordCounts batch) = length (remove_dups (batch_words batch)).
Proof.
  rewrite <- (length_fmap fst (batch_wordCounts batch)).
  apply Permutation_length, NoDup_Permutation.
  - apply NoDup_keys_batch_wordCounts.
  - apply NoDup_remove_dups.
  - intros w. rewrite elem_of_remove_dups, list_elem_of_fmap. split.
    + intros ([w' n] & -> & Hin). now apply elem_of_batch_wordCounts in Hin.
    + intros Hin. exists (w, occurrences w (batch_words batch)).
      split; [reflexivity|]. now apply elem_of_batch_wordCounts.
Qed.

(** X6. For the counts a space and the end of a line are the same: a line
    cut in two at a space yields the pairs of the uncut line. *)
Theorem space_or_line_break (pre post : RDD.t string) (l1 l2 : string) :
  batch_words (pre ++ (l1 +:+ " " +:+ l2) :: post)
  = batch_words (pre ++ l1 :: l2 :: post)
  /\ batch_wordCounts (pre ++ (l1 +:+ " " +:+ l2) :: post)
     = batch_wordCounts (pre ++ l1 :: l2 :: post).
Proof.
  assert (Hwords : batch_words (pre ++ (l1 +:+ " " +:+ l2) :: post)
                   = batch_words (pre ++ l1 :: l2 :: post)).
  { rewrite !batch_words_app. f_equal.
    unfold batch_words, RDD.flatMap. rewrite !bind_cons, !split_space.
    change (" " +:+ l2) with (String " " l2).
    rewrite split_where_app by reflexivity. now rewrite app_assoc. }
  split; [exact Hwords|].
  unfold batch_wordCounts, batch_pairs. now rewrite Hwords.
Qed.

(** X7. The counts of two batches put together are the sums of their
    counts: a word of both has the sum, a word of one keeps its count. *)
Theorem counts_of_joined_batches (b1 b2 : RDD.t string) (w : string) :
  (forall n1 n2,
      (w, n1) ∈ batch_wordCounts b1 -> (w, n2) ∈ batch_wordCounts b2 ->
      (w, n1 + n2) ∈ batch_wordCounts (b1 ++ b2))
  /\ (forall n1,
        (w, n1) ∈ batch_wordCounts b1 -> w ∉ batch_words b2 ->
        (w, n1) ∈ batch_wordCounts (b1 ++ b2))
  /\ (forall n2,
        w ∉ batch_words b1 -> (w, n2) ∈ batch_wordCounts b2 ->
        (w, n2) ∈ batch_wordCounts (b1 ++ b2)).
Proof.
  repeat split.
  - intros n1 n2 [H1 ->]%elem_of_batch_wordCounts
      [H2 ->]%elem_of_batch_wordCounts.
    apply elem_of_batch_wordCounts. rewrite batch_words_app.
    split; [apply elem_of_app; now left | now rewrite occurrences_app].
  - intros n1 [H1 ->]%elem_of_batch_wordCounts H2.
    apply elem_of_batch_wordCounts. rewrite batch_words_app.
    split; [apply elem_of_app; now left|].
    rewrite occurrences_app, (occurrences_absent w (batch_words b2)) by
      assumption. lia.
  - intros n2 H1 [H2 ->]%elem_of_batch_wordCounts.
    apply elem_of_batch_wordCounts. rewrite batch_words_app.
    split; [apply elem_of_app; now right|].
    rewrite occurrences_app, (occurrences_absent w (batch_words b1)) by
      assumption. lia.
Qed.

Lemma counts_of_joined_batches_witness :
  ("a", 2 + 1) ∈ batch_wordCounts (["a b a"] ++ ["c a"])
  /\ ("b", 1) ∈ batch_wordCounts (["a b a"] ++ ["c a"])
  /\ ("c", 1) ∈ batch_wordCounts (["a b a"] ++ ["c a"]).
Proof.
  split; [|split].
  - apply (proj1 (counts_of_joined_batches ["a b a"] ["c a"] "a") 2 1).
    + vm_compute. left.
    + vm_compute. right. left.
  - apply (proj1 (proj2 (counts_of_joined_batches ["a b a"] ["c a"] "b")) 1).
    + vm_compute. right. left.
    + vm_compute. intros Hin.
      repeat (apply elem_of_cons in Hin as [Hin|Hin]; [discriminate Hin|]).
      now apply elem_of_nil in Hin.
  - apply (proj2 (proj2 (counts_of_joined_batches ["a b a"] ["c a"] "c")) 1).
    + vm_compute. intros Hin.
      repeat (apply elem_of_cons in Hin as [Hin|Hin]; [discriminate Hin|]).
      now apply elem_of_nil in Hin.
    + vm_compute. left.
Defined.

(** X8. Only a batch without lines has no pair: every line, the empty one
    too, brings a token. *)
Theorem no_pair_iff_no_line (batch : RDD.t string) :
  batch_wordCounts batch = [] <-> batch = [].
Proof.
  split; [|now intros ->].
  destruct batch as [|line batch]; [reflexivity|]. intros Hnil. exfalso.
  pose proof (batch_words_not_nil line batch) as Hne.
  destruct (batch_words (line :: batch)) as [|w ws] eqn:Hwords; [congruence|].
  assert (Hin : (w, occurrences w (batch_words (line :: batch)))
                ∈ batch_wordCounts (line :: batch)).
  { apply elem_of_batch_wordCounts. split; [|reflexivity].
    rewrite Hwords. left. }
  rewrite Hnil in Hin. now apply elem_of_nil in Hin.
Qed.

(** ** Further properties of the runs *)

